(** * A shallow embedding of [locustfile.py]

    The program is a Locust user class [MigrationUser] with one task,
    [run_migration], that builds a fixed Python dict, serialises it with
    [json.dumps] and hands it to [self.client.post] together with a
    [Content-Type] header.  The HTTP client and the scheduler belong to
    the Locust framework; they are kept abstract here (a responder that
    maps a request and the framework's own state to a new framework state
    and either a response or a raised exception).

    [json.dumps] is embedded with the defaults the call uses:
    [ensure_ascii=True], [separators=(', ', ': ')], [sort_keys=False].
    Strings are [String.string]s: one [ascii] per code point of the
    Python string, for code points below 256. *)

From Stdlib Require Import String Ascii List Arith Lia.
Import ListNotations.
Open Scope string_scope.
Set Warnings "-register-all".

(** ** JSON values and [json.dumps] *)

Module Json.

Inductive value : Type :=
| JNull
| JBool (b : bool)
| JStr (s : string)
| JArr (xs : list value)
| JObj (kvs : list (string * value)).

(** The double quote and the backslash as one-character strings. *)
Definition quote : string := String "034"%char EmptyString.
Definition backslash : string := String "092"%char EmptyString.

(** A lower-case hexadecimal digit, as ['{0:04x}'.format(n)] prints it. *)
Definition hex_digit (n : nat) : ascii :=
  if Nat.ltb n 10 then ascii_of_nat (48 + n) else ascii_of_nat (87 + n).

(** [py_encode_basestring_ascii] for one character: the entries of
    [ESCAPE_DCT], and [\u00XX] for every other character outside the
    printable range [' '..'~']. *)
Definition escape_char (c : ascii) : string :=
  let n := nat_of_ascii c in
  if Nat.eqb n 34 then backslash ++ quote
  else if Nat.eqb n 92 then backslash ++ backslash
  else if Nat.eqb n 8 then backslash ++ "b"
  else if Nat.eqb n 12 then backslash ++ "f"
  else if Nat.eqb n 10 then backslash ++ "n"
  else if Nat.eqb n 13 then backslash ++ "r"
  else if Nat.eqb n 9 then backslash ++ "t"
  else if andb (Nat.leb 32 n) (Nat.leb n 126) then String c EmptyString
  else backslash ++ "u00" ++ String (hex_digit (Nat.div n 16))
                                   (String (hex_digit (Nat.modulo n 16)) EmptyString).

Fixpoint escape_body (s : string) : string :=
  match s with
  | EmptyString => EmptyString
  | String c s' => escape_char c ++ escape_body s'
  end.

(** [encode_basestring_ascii]: the escaped string between double quotes. *)
Definition encode_string (s : string) : string :=
  quote ++ escape_body s ++ quote.

(** [', '.join(items)] *)
Fixpoint join (sep : string) (xs : list string) : string :=
  match xs with
  | [] => EmptyString
  | [x] => x
  | x :: xs' => x ++ sep ++ join sep xs'
  end.

(** The default item and key separators of [json.dumps] (no [indent]). *)
Definition item_separator : string := ", ".
Definition key_separator : string := ": ".

(** [json.dumps(obj)]: dicts are written in their insertion order
    ([sort_keys=False]). *)
Fixpoint dumps (v : value) : string :=
  match v with
  | JNull => "null"
  | JBool true => "true"
  | JBool false => "false"
  | JStr s => encode_string s
  | JArr xs => "[" ++ join item_separator (map dumps xs) ++ "]"
  | JObj kvs =>
      "{" ++ join item_separator
               (map (fun kv => encode_string (fst kv) ++ key_separator
                                 ++ dumps (snd kv)) kvs) ++ "}"
  end.

(** ** A JSON decoder

    The decoder the round-trip claim refers to: a standard JSON parser in
    the manner of [json.loads] (RFC 8259 objects, arrays, strings,
    [true], [false], [null]; whitespace is space, tab, newline and
    carriage return; raw control characters inside strings are refused as
    in strict mode).  Numbers are not needed by the program and are left
    out; [\uXXXX] escapes are decoded when they name a code point below 256.
    Objects are returned as their list of pairs, in text order. *)

Definition is_ws (c : ascii) : bool :=
  let n := nat_of_ascii c in
  Nat.eqb n 32 || Nat.eqb n 9 || Nat.eqb n 10 || Nat.eqb n 13.

Fixpoint skip_ws (s : string) : string :=
  match s with
  | String c s' => if is_ws c then skip_ws s' else s
  | EmptyString => EmptyString
  end.

Definition hex_val (c : ascii) : option nat :=
  let n := nat_of_ascii c in
  if andb (Nat.leb 48 n) (Nat.leb n 57) then Some (n - 48)
  else if andb (Nat.leb 97 n) (Nat.leb n 102) then Some (n - 87)
  else if andb (Nat.leb 65 n) (Nat.leb n 70) then Some (n - 55)
  else None.

Definition hex4 (s : string) : option (nat * string) :=
  match s with
  | String a (String b (String c (String d r))) =>
      match hex_val a, hex_val b, hex_val c, hex_val d with
      | Some x, Some y, Some z, Some w => Some (((x * 16 + y) * 16 + z) * 16 + w, r)
      | _, _, _, _ => None
      end
  | _ => None
  end.

(** The character a one-letter escape stands for. *)
Definition short_escape (e : ascii) : option ascii :=
  let n := nat_of_ascii e in
  if Nat.eqb n 34 then Some e
  else if Nat.eqb n 92 then Some e
  else if Nat.eqb n 47 then Some e
  else if Nat.eqb n 98 then Some (ascii_of_nat 8)
  else if Nat.eqb n 102 then Some (ascii_of_nat 12)
  else if Nat.eqb n 110 then Some (ascii_of_nat 10)
  else if Nat.eqb n 114 then Some (ascii_of_nat 13)
  else if Nat.eqb n 116 then Some (ascii_of_nat 9)
  else None.

Definition prepend (c : ascii) (r : option (string * string)) : option (string * string) :=
  match r with
  | Some (str, rest) => Some (String c str, rest)
  | None => None
  end.

(** The body of a string literal, after its opening quote: the decoded
    contents and the text after the closing quote. *)
Fixpoint parse_string (fuel : nat) (s : string) : option (string * string) :=
  match fuel with
  | 0 => None
  | S f =>
      match s with
      | EmptyString => None
      | String c s' =>
          let n := nat_of_ascii c in
          if Nat.eqb n 34 then Some (EmptyString, s')
          else if Nat.eqb n 92 then
            match s' with
            | EmptyString => None
            | String e s'' =>
                if Nat.eqb (nat_of_ascii e) 117 then
                  match hex4 s'' with
                  | Some (v, r) => if Nat.ltb v 256 then prepend (ascii_of_nat v) (parse_string f r)
                                   else None
                  | None => None
                  end
                else match short_escape e with
                     | Some ch => prepend ch (parse_string f s'')
                     | None => None
                     end
            end
          else if Nat.ltb n 32 then None
          else prepend c (parse_string f s')
      end
  end.

Definition starts_with (p s : string) : option string :=
  if String.prefix p s then Some (substring (String.length p) (String.length s) s) else None.

Fixpoint parse_value (fuel : nat) (s : string) : option (value * string) :=
  match fuel with
  | 0 => None
  | S f =>
      match s with
      | EmptyString => None
      | String c s' =>
          let n := nat_of_ascii c in
          if Nat.eqb n 34 then
            match parse_string (String.length s') s' with
            | Some (str, r) => Some (JStr str, r)
            | None => None
            end
          else if Nat.eqb n 123 then
            match skip_ws s' with
            | String c' r => if Nat.eqb (nat_of_ascii c') 125 then Some (JObj [], r)
                             else match parse_members f (String c' r) with
                                  | Some (kvs, r') => Some (JObj kvs, r')
                                  | None => None
                                  end
            | EmptyString => None
            end
          else if Nat.eqb n 91 then
            match skip_ws s' with
            | String c' r => if Nat.eqb (nat_of_ascii c') 93 then Some (JArr [], r)
                             else match parse_elements f (String c' r) with
                                  | Some (xs, r') => Some (JArr xs, r')
                                  | None => None
                                  end
            | EmptyString => None
            end
          else match starts_with "null" s with
               | Some r => Some (JNull, r)
               | None =>
                 match starts_with "true" s with
                 | Some r => Some (JBool true, r)
                 | None =>
                   match starts_with "false" s with
                   | Some r => Some (JBool false, r)
                   | None => None
                   end
                 end
               end
      end
  end
(** Members of a non-empty object, up to and including the closing brace. *)
with parse_members (fuel : nat) (s : string) : option (list (string * value) * string) :=
  match fuel with
  | 0 => None
  | S f =>
      match s with
      | String c s' =>
          if Nat.eqb (nat_of_ascii c) 34 then
            match parse_string (String.length s') s' with
            | Some (k, r) =>
                match skip_ws r with
                | String col r1 =>
                    if Nat.eqb (nat_of_ascii col) 58 then
                      match parse_value f (skip_ws r1) with
                      | Some (v, r2) =>
                          match skip_ws r2 with
                          | String d r3 =>
                              if Nat.eqb (nat_of_ascii d) 125 then Some ([(k, v)], r3)
                              else if Nat.eqb (nat_of_ascii d) 44 then
                                match parse_members f (skip_ws r3) with
                                | Some (kvs, r4) => Some ((k, v) :: kvs, r4)
                                | None => None
                                end
                              else None
                          | EmptyString => None
                          end
                      | None => None
                      end
                    else None
                | EmptyString => None
                end
            | None => None
            end
          else None
      | EmptyString => None
      end
  end
(** Elements of a non-empty array, up to and including the closing bracket. *)
with parse_elements (fuel : nat) (s : string) : option (list value * string) :=
  match fuel with
  | 0 => None
  | S f =>
      match parse_value f s with
      | Some (v, r) =>
          match skip_ws r with
          | String d r1 =>
              if Nat.eqb (nat_of_ascii d) 93 then Some ([v], r1)
              else if Nat.eqb (nat_of_ascii d) 44 then
                match parse_elements f (skip_ws r1) with
                | Some (xs, r2) => Some (v :: xs, r2)
                | None => None
                end
              else None
          | EmptyString => None
          end
      | None => None
      end
  end.

(** [json.loads]: one value, surrounded by optional whitespace. *)
Definition loads (s : string) : option value :=
  match parse_value (S (String.length s)) (skip_ws s) with
  | Some (v, r) => if String.eqb (skip_ws r) EmptyString then Some v else None
  | None => None
  end.

End Json.

(** ** The Locust user and its task *)

Module Locust.
Import Json.

(** The arguments of one call to the HTTP client: method, path, the
    [data=] body and the [headers=] dict. *)
Record Request : Type := mkRequest {
  req_method : string;
  req_path : string;
  req_data : string;
  req_headers : list (string * string)
}.

(** [between(min_wait, max_wait)], the wait-time directive of the class. *)
Inductive WaitTime : Type :=
| between (min_wait max_wait : nat).

(** The attributes of a [MigrationUser] instance: the class attribute
    [wait_time] and the target host the framework configures. *)
Record MigrationUser : Type := mkMigrationUser {
  wait_time : WaitTime;
  host : string
}.

(** The class attribute [wait_time = between(1, 2)]. *)
Definition migration_wait_time : WaitTime := between 1 2.

(** A Python call either returns or raises. *)
Inductive outcome (Exn A : Type) : Type :=
| Ok (a : A)
| Raised (e : Exn).
Arguments Ok {Exn A} a.
Arguments Raised {Exn A} e.

Section Task.

(** The framework's own state (the client's session, cookies,
    statistics), its exceptions and its response objects. *)
Context {Ext Exn Resp : Type}.

(** What the network and the framework do with one request. *)
Variable respond : Request -> Ext -> Ext * outcome Exn Resp.

(** The state an invocation runs in: the user instance, the framework's
    state and the log of requests put on the wire. *)
Record World : Type := mkWorld {
  user : MigrationUser;
  ext : Ext;
  sent : list Request
}.

Definition M (A : Type) : Type := World -> World * outcome Exn A.

Definition ret {A} (a : A) : M A := fun w => (w, Ok a).

Definition bind {A B} (m : M A) (k : A -> M B) : M B :=
  fun w => match m w with
           | (w', Ok a) => k a w'
           | (w', Raised e) => (w', Raised e)
           end.

Notation "x <- m ;; k" := (bind m (fun x => k)) (at level 61, m at next level, right associativity).

(** [self.client.request(method, path, data=..., headers=...)]: one
    request goes on the wire; the framework answers or raises. *)
Definition client_request (method path data : string) (headers : list (string * string))
  : M Resp :=
  fun w =>
    let r := mkRequest method path data headers in
    let '(e', o) := respond r (ext w) in
    (mkWorld (user w) e' (sent w ++ [r]), o).

(** [self.client.post(path, data=..., headers=...)] *)
Definition post (path data : string) (headers : list (string * string)) : M Resp :=
  client_request "POST" path data headers.

(** The dict literal of [run_migration], in insertion order. *)
Definition payload : value :=
  JObj [("input", JStr "CSV");
        ("output", JStr "CSV");
        ("csv_source_file_name", JStr "sample.csv");
        ("csv_destination_file_name", JStr "destination_file.csv")].

(** [MigrationUser.run_migration] *)
Definition run_migration : M unit :=
  _ <- post "/api/migration" (dumps payload) [("Content-Type", "application/json")];;
  ret tt.

(** The framework's task loop for one user, [n] rounds: the task is run,
    an exception it raises is recorded by the framework and the loop goes
    on.  The waits between rounds do not touch the state modelled here. *)
Fixpoint run_tasks (n : nat) (w : World) : World * list (outcome Exn unit) :=
  match n with
  | 0 => (w, [])
  | S n' =>
      let '(w1, o) := run_migration w in
      let '(w2, os) := run_tasks n' w1 in
      (w2, o :: os)
  end.

End Task.

(** The request [run_migration] hands to the client. *)
Definition migration_request : Request :=
  mkRequest "POST" "/api/migration" (dumps payload) [("Content-Type", "application/json")].

End Locust.

(** ** Bodies as the specification writes them *)

Module Bodies.
Import Json.

Definition qs (s : string) : string := quote ++ s ++ quote.

(** The body of the specification's scenario, written without any space. *)
Definition spec_compact_body : string :=
  "{" ++ qs "input" ++ ":" ++ qs "CSV" ++ ","
      ++ qs "output" ++ ":" ++ qs "CSV" ++ ","
      ++ qs "csv_source_file_name" ++ ":" ++ qs "sample.csv" ++ ","
      ++ qs "csv_destination_file_name" ++ ":" ++ qs "destination_file.csv" ++ "}".

(** The same four fields with the default separators of [json.dumps]. *)
Definition spaced_body : string :=
  "{" ++ qs "input" ++ ": " ++ qs "CSV" ++ ", "
      ++ qs "output" ++ ": " ++ qs "CSV" ++ ", "
      ++ qs "csv_source_file_name" ++ ": " ++ qs "sample.csv" ++ ", "
      ++ qs "csv_destination_file_name" ++ ": " ++ qs "destination_file.csv" ++ "}".

(** The decoded mapping the round-trip claim names. *)
Definition expected_fields : list (string * value) :=
  [("input", JStr "CSV");
   ("output", JStr "CSV");
   ("csv_source_file_name", JStr "sample.csv");
   ("csv_destination_file_name", JStr "destination_file.csv")].

End Bodies.

(** ** Measures on JSON values and text *)

Module JsonAux.
Import Json.

(** Every character of the text is printable ASCII, [' '..'~']. *)
Fixpoint printable (s : string) : bool :=
  match s with
  | EmptyString => true
  | String c s' =>
      andb (andb (Nat.leb 32 (nat_of_ascii c)) (Nat.leb (nat_of_ascii c) 126)) (printable s')
  end.

(** The number of nodes of a value, counting each array element and each
    object member once more. *)
Fixpoint size (v : value) : nat :=
  match v with
  | JNull | JBool _ | JStr _ => 1
  | JArr xs => S (list_sum (map (fun x => S (size x)) xs))
  | JObj kvs => S (list_sum (map (fun kv => S (size (snd kv))) kvs))
  end.

(** Induction over values through their nested lists. *)
Fixpoint value_ind' (P : value -> Prop)
  (Pnull : P JNull) (Pbool : forall b, P (JBool b)) (Pstr : forall s, P (JStr s))
  (Parr : forall xs, Forall P xs -> P (JArr xs))
  (Pobj : forall kvs, Forall (fun kv => P (snd kv)) kvs -> P (JObj kvs))
  (v : value) : P v :=
  let rec := value_ind' P Pnull Pbool Pstr Parr Pobj in
  match v with
  | JNull => Pnull
  | JBool b => Pbool b
  | JStr s => Pstr s
  | JArr xs =>
      Parr xs ((fix go (l : list value) : Forall P l :=
                  match l with
                  | [] => Forall_nil P
                  | x :: l' => Forall_cons x (rec x) (go l')
                  end) xs)
  | JObj kvs =>
      Pobj kvs ((fix go (l : list (string * value)) : Forall (fun kv => P (snd kv)) l :=
                   match l with
                   | [] => Forall_nil _
                   | kv :: l' => Forall_cons kv (rec (snd kv)) (go l')
                   end) kvs)
  end.

(** One object member as [dumps] writes it. *)
Definition item (kv : string * value) : string :=
  encode_string (fst kv) ++ key_separator ++ dumps (snd kv).

End JsonAux.

(** ** Proofs *)

Module Proofs.
Import Json Locust Bodies.
Local Open Scope list_scope.

(** One invocation, unfolded: the user is untouched, the framework's state
    is whatever it makes of [migration_request], that request is appended to
    the wire log, and the task's outcome mirrors the client call's. *)
Lemma run_migration_step {Ext Exn Resp : Type}
      (respond : Request -> Ext -> Ext * outcome Exn Resp) (w : World) :
  run_migration respond w =
    (mkWorld (user w) (fst (respond migration_request (ext w)))
             (sent w ++ [migration_request]),
     match snd (respond migration_request (ext w)) with
     | Ok _ => Ok tt
     | Raised e => Raised e
     end).
Proof.
  unfold run_migration, bind, post, client_request, ret.
  fold migration_request.
  destruct (respond migration_request (ext w)) as [e' [r|e]]; reflexivity.
Qed.

Lemma sent_run_migration {Ext Exn Resp : Type}
      (respond : Request -> Ext -> Ext * outcome Exn Resp) (w : World) :
  sent (fst (run_migration respond w)) = sent w ++ [migration_request].
Proof. rewrite run_migration_step. reflexivity. Qed.

Lemma dumps_payload : dumps payload = spaced_body.
Proof. vm_compute. reflexivity. Qed.

(** A concrete framework: it answers every request with [tt]. *)
Definition unit_respond (r : Request) (e : unit) : unit * outcome unit unit :=
  (tt, Ok tt).

Definition world0 : @World unit :=
  mkWorld (mkMigrationUser migration_wait_time "http://localhost:8080") tt [].

(** C1 (counterexample): on the first invocation the body put on the wire
    is not the space-free string of the specification. *)
Lemma C1_counterexample :
  map req_data (sent (fst (run_migration unit_respond world0))) <> [spec_compact_body].
Proof. vm_compute. congruence. Qed.

(** C1 (amended): every invocation sends exactly one body, and it is the
    four fields in order, written with the default separators of
    [json.dumps]: [", "] between items and [": "] after each key. *)
Theorem C1_body_is_dumps_default {Ext Exn Resp : Type}
        (respond : Request -> Ext -> Ext * outcome Exn Resp) (w : World) :
  map req_data (sent (fst (run_migration respond w)))
    = map req_data (sent w) ++ [spaced_body].
Proof.
  rewrite sent_run_migration, map_app.
  exact (f_equal (fun b => map req_data (sent w) ++ [b]) dumps_payload).
Qed.

(** C2: every invocation issues a POST to the path [/api/migration]. *)
Theorem C2_post_to_api_migration {Ext Exn Resp : Type}
        (respond : Request -> Ext -> Ext * outcome Exn Resp) (w : World) :
  exists r, sent (fst (run_migration respond w)) = sent w ++ [r]
            /\ req_method r = "POST" /\ req_path r = "/api/migration".
Proof.
  exists migration_request. rewrite sent_run_migration. auto.
Qed.

(** C3: every invocation's request carries the header
    [Content-Type: application/json] (and no other header of its own). *)
Theorem C3_content_type_json {Ext Exn Resp : Type}
        (respond : Request -> Ext -> Ext * outcome Exn Resp) (w : World) :
  exists r, sent (fst (run_migration respond w)) = sent w ++ [r]
            /\ req_headers r = [("Content-Type", "application/json")].
Proof.
  exists migration_request. rewrite sent_run_migration. auto.
Qed.

(** C4: [n] rounds of the task put [n] copies of one and the same request
    on the wire (method, path, body and headers), whatever the framework
    answers, and leave the user instance as it was. *)
Theorem C4_rounds_identical {Ext Exn Resp : Type}
        (respond : Request -> Ext -> Ext * outcome Exn Resp) (n : nat) (w : World) :
  sent (fst (run_tasks respond n w)) = sent w ++ repeat migration_request n
  /\ user (fst (run_tasks respond n w)) = user w.
Proof.
  revert w. induction n as [|n IH]; intros w; simpl.
  - rewrite app_nil_r. auto.
  - rewrite run_migration_step.
    destruct (run_tasks respond n _) as [w2 os] eqn:Hrun.
    specialize (IH (mkWorld (user w) (fst (respond migration_request (ext w)))
                            (sent w ++ [migration_request]))).
    rewrite Hrun in IH. simpl in IH. destruct IH as [Hs Hu].
    simpl. rewrite Hs, <- app_assoc. auto.
Qed.

(** C5: the task never looks at the response: the request it sends and
    the user it leaves do not depend on the framework's answer, and its own
    outcome is [None] (here [tt]) when the call returns and the call's
    exception, unchanged, when it raises. *)
Theorem C5_response_ignored {Ext Exn Resp : Type}
        (respond1 respond2 : Request -> Ext -> Ext * outcome Exn Resp) (w : World) :
  sent (fst (run_migration respond1 w)) = sent (fst (run_migration respond2 w))
  /\ user (fst (run_migration respond1 w)) = user (fst (run_migration respond2 w))
  /\ snd (run_migration respond1 w)
     = match snd (respond1 migration_request (ext w)) with
       | Ok _ => Ok tt
       | Raised e => Raised e
       end.
Proof.
  rewrite !run_migration_step. simpl. auto.
Qed.

(** C7: one invocation puts exactly one request on the wire, whether the
    call returns or raises, and that is all it does: the state after it is
    the state before, with the request appended to the wire log and the
    framework's own state replaced by what the framework makes of that
    request; the user instance is untouched. *)
Theorem C7_exactly_one_request {Ext Exn Resp : Type}
        (respond : Request -> Ext -> Ext * outcome Exn Resp) (w : World) :
  (exists r, fst (run_migration respond w)
             = mkWorld (user w) (fst (respond r (ext w))) (sent w ++ [r]))
  /\ length (sent (fst (run_migration respond w))) = S (length (sent w)).
Proof.
  split.
  - exists migration_request. rewrite run_migration_step. reflexivity.
  - rewrite sent_run_migration, length_app. simpl. lia.
Qed.

(** C8: an invocation writes no attribute of the user instance, and the
    request it builds is the same for every state it starts in: nothing of
    an earlier invocation reaches it. *)
Theorem C8_no_state_kept {Ext Exn Resp : Type}
        (respond : Request -> Ext -> Ext * outcome Exn Resp) (w : World) :
  user (fst (run_migration respond w)) = user w
  /\ exists r, forall (w' : World),
       sent (fst (run_migration respond w')) = sent w' ++ [r].
Proof.
  rewrite run_migration_step. split; [reflexivity|].
  exists migration_request. intros w'. apply sent_run_migration.
Qed.

Lemma loads_spaced_body : loads spaced_body = Some (JObj expected_fields).
Proof. vm_compute. reflexivity. Qed.

(** C9: decoding the body of any invocation gives back the four-key
    mapping, with no key repeated. *)
Theorem C9_body_roundtrip {Ext Exn Resp : Type}
        (respond : Request -> Ext -> Ext * outcome Exn Resp) (w : World) :
  exists r, sent (fst (run_migration respond w)) = sent w ++ [r]
            /\ loads (req_data r) = Some (JObj expected_fields)
            /\ NoDup (map fst expected_fields).
Proof.
  exists migration_request. rewrite sent_run_migration. split; [reflexivity|split].
  - change (req_data migration_request) with (dumps payload).
    rewrite dumps_payload. exact loads_spaced_body.
  - repeat constructor; simpl; intuition discriminate.
Qed.

(** C10: in the body of any invocation the keys come in the order
    [input], [output], [csv_source_file_name], [csv_destination_file_name]. *)
Theorem C10_key_order {Ext Exn Resp : Type}
        (respond : Request -> Ext -> Ext * outcome Exn Resp) (w : World) :
  exists r kvs, sent (fst (run_migration respond w)) = sent w ++ [r]
            /\ loads (req_data r) = Some (JObj kvs)
            /\ map fst kvs = ["input"; "output"; "csv_source_file_name";
                             "csv_destination_file_name"].
Proof.
  exists migration_request, expected_fields.
  rewrite sent_run_migration. split; [reflexivity|split; [|reflexivity]].
  change (req_data migration_request) with (dumps payload).
  rewrite dumps_payload. exact loads_spaced_body.
Qed.

End Proofs.

(** ** General facts about [json.dumps] *)

Module JsonFacts.
Import Json JsonAux.

Lemma append_assoc (a b c : string) : (a ++ b) ++ c = a ++ (b ++ c).
Proof. induction a as [|x a IH]; simpl; [reflexivity|now rewrite IH]. Qed.

Lemma append_nil_r (a : string) : a ++ EmptyString = a.
Proof. induction a as [|x a IH]; simpl; [reflexivity|now rewrite IH]. Qed.

Lemma length_append (a b : string) : String.length (a ++ b) = String.length a + String.length b.
Proof. induction a as [|x a IH]; simpl; [reflexivity|now rewrite IH]. Qed.

(** Decoding undoes the escaping of one character. *)
Lemma parse_escape_char (c : ascii) (f : nat) (r : string) :
  parse_string (S f) (escape_char c ++ r) = prepend c (parse_string f r).
Proof.
  destruct c as [[] [] [] [] [] [] [] []]; reflexivity.
Qed.

Lemma escape_char_printable (c : ascii) : printable (escape_char c) = true.
Proof.
  destruct c as [[] [] [] [] [] [] [] []]; reflexivity.
Qed.

Lemma escape_char_nonempty (c : ascii) : 1 <= String.length (escape_char c).
Proof.
  apply Nat.leb_le. destruct c as [[] [] [] [] [] [] [] []]; reflexivity.
Qed.

Lemma escape_body_length (s : string) : String.length s <= String.length (escape_body s).
Proof.
  induction s as [|c s IH]; simpl; [lia|].
  rewrite length_append. pose proof (escape_char_nonempty c). lia.
Qed.

Lemma printable_append (a b : string) : printable (a ++ b) = andb (printable a) (printable b).
Proof.
  induction a as [|c a IH]; simpl; [reflexivity|]. rewrite IH, Bool.andb_assoc. reflexivity.
Qed.

(** The escaped body of a string, closed by a quote, decodes to the string. *)
Lemma parse_string_escaped (s rest : string) (f : nat) :
  String.length s < f -> parse_string f (escape_body s ++ quote ++ rest) = Some (s, rest).
Proof.
  revert f. induction s as [|c s IH]; intros f Hf; simpl in *.
  - destruct f as [|f]; [lia|]. reflexivity.
  - destruct f as [|f]; [lia|]. rewrite append_assoc, parse_escape_char, IH by lia.
    reflexivity.
Qed.

Lemma substring_all (s : string) (m : nat) : String.length s <= m -> substring 0 m s = s.
Proof.
  revert m. induction s as [|c s IH]; intros m Hm; simpl in *.
  - destruct m; reflexivity.
  - destruct m as [|m]; [lia|]. rewrite IH by lia. reflexivity.
Qed.

Lemma prefix_empty (s : string) : String.prefix EmptyString s = true.
Proof. destruct s; reflexivity. Qed.

Lemma skip_ws_head (c : ascii) (t : string) : is_ws c = false -> skip_ws (String c t) = String c t.
Proof. intros H. simpl. rewrite H. reflexivity. Qed.

(** Serialised text never starts with whitespace, a closing bracket or a
    closing brace. *)
Lemma dumps_head (v : value) (r : string) :
  exists c t, dumps v ++ r = String c t /\ is_ws c = false
              /\ Nat.eqb (nat_of_ascii c) 93 = false /\ Nat.eqb (nat_of_ascii c) 125 = false.
Proof.
  destruct v as [| [] | s | xs | kvs]; do 2 eexists; (split; [reflexivity|]); auto.
Qed.

Lemma skip_ws_quote (t : string) : skip_ws (quote ++ t) = quote ++ t.
Proof. reflexivity. Qed.

Lemma parse_value_quote (g : nat) (t : string) :
  parse_value (S g) (quote ++ t)
  = match parse_string (String.length t) t with
    | Some (str, r) => Some (JStr str, r)
    | None => None
    end.
Proof. reflexivity. Qed.

Lemma parse_value_arr (g : nat) (t : string) :
  parse_value (S g) ("[" ++ t)
  = match skip_ws t with
    | String c' r => if Nat.eqb (nat_of_ascii c') 93 then Some (JArr [], r)
                     else match parse_elements g (String c' r) with
                          | Some (xs, r') => Some (JArr xs, r')
                          | None => None
                          end
    | EmptyString => None
    end.
Proof. reflexivity. Qed.

Lemma parse_value_obj (g : nat) (t : string) :
  parse_value (S g) ("{" ++ t)
  = match skip_ws t with
    | String c' r => if Nat.eqb (nat_of_ascii c') 125 then Some (JObj [], r)
                     else match parse_members g (String c' r) with
                          | Some (kvs, r') => Some (JObj kvs, r')
                          | None => None
                          end
    | EmptyString => None
    end.
Proof. reflexivity. Qed.

Lemma parse_elements_step (f : nat) (s : string) :
  parse_elements (S f) s
  = match parse_value f s with
    | Some (v, r) =>
        match skip_ws r with
        | String d r1 =>
            if Nat.eqb (nat_of_ascii d) 93 then Some ([v], r1)
            else if Nat.eqb (nat_of_ascii d) 44 then
              match parse_elements f (skip_ws r1) with
              | Some (xs, r2) => Some (v :: xs, r2)
              | None => None
              end
            else None
        | EmptyString => None
        end
    | None => None
    end.
Proof. reflexivity. Qed.

Lemma parse_members_quote (f : nat) (t : string) :
  parse_members (S f) (quote ++ t)
  = match parse_string (String.length t) t with
    | Some (k, r) =>
        match skip_ws r with
        | String col r1 =>
            if Nat.eqb (nat_of_ascii col) 58 then
              match parse_value f (skip_ws r1) with
              | Some (v, r2) =>
                  match skip_ws r2 with
                  | String d r3 =>
                      if Nat.eqb (nat_of_ascii d) 125 then Some ([(k, v)], r3)
                      else if Nat.eqb (nat_of_ascii d) 44 then
                        match parse_members f (skip_ws r3) with
                        | Some (kvs, r4) => Some ((k, v) :: kvs, r4)
                        | None => None
                        end
                      else None
                  | EmptyString => None
                  end
              | None => None
              end
            else None
        | EmptyString => None
        end
    | None => None
    end.
Proof. reflexivity. Qed.

Lemma dumps_obj (kvs : list (string * value)) :
  dumps (JObj kvs) = "{" ++ join item_separator (map item kvs) ++ "}".
Proof. reflexivity. Qed.

Lemma dumps_arr (xs : list value) :
  dumps (JArr xs) = "[" ++ join item_separator (map dumps xs) ++ "]".
Proof. reflexivity. Qed.

Lemma join_cons2 {A} (sep : string) (h : A -> string) (x y : A) (ys : list A) :
  join sep (map h (x :: y :: ys)) = h x ++ sep ++ join sep (map h (y :: ys)).
Proof. reflexivity. Qed.

Lemma join_dumps_head (x : value) (xs : list value) (r : string) :
  exists c t, join item_separator (map dumps (x :: xs)) ++ r = String c t /\ is_ws c = false
              /\ Nat.eqb (nat_of_ascii c) 93 = false.
Proof.
  destruct xs as [|y ys].
  - destruct (dumps_head x r) as (c & t & E & W & B & _). exists c, t. auto.
  - rewrite join_cons2, append_assoc.
    destruct (dumps_head x (item_separator ++ join item_separator (map dumps (y :: ys)) ++ r))
      as (c & t & E & W & B & _). exists c, t. auto.
Qed.

Lemma join_items_head (kv : string * value) (kvs : list (string * value)) (r : string) :
  exists t, join item_separator (map item (kv :: kvs)) ++ r = quote ++ t.
Proof.
  destruct kvs as [|kv' kvs].
  - exists ((escape_body (fst kv) ++ quote) ++ key_separator ++ dumps (snd kv) ++ r).
    simpl. unfold item, encode_string. rewrite !append_assoc. reflexivity.
  - rewrite join_cons2. unfold item at 1, encode_string.
    rewrite !append_assoc. eexists. reflexivity.
Qed.

(** What the decoder reads back of a serialised value followed by any text. *)
Definition parses_back (v : value) : Prop :=
  forall g rest, size v < g -> parse_value g (dumps v ++ rest) = Some (v, rest).

Lemma parse_elements_join (xs : list value) :
  Forall parses_back xs -> xs <> [] ->
  forall g rest, list_sum (map (fun x => S (size x)) xs) < g ->
  parse_elements g (join item_separator (map dumps xs) ++ "]" ++ rest) = Some (xs, rest).
Proof.
  induction 1 as [|x xs Px Hxs IH]; intros Hne g rest Hg; [congruence|].
  destruct g as [|g]; [lia|]. rewrite parse_elements_step. simpl in Hg.
  destruct xs as [|y ys].
  - change (join item_separator (map dumps [x])) with (dumps x).
    rewrite Px by lia. reflexivity.
  - rewrite join_cons2, !append_assoc, Px by (simpl in Hg; lia).
    destruct (join_dumps_head y ys ("]" ++ rest)) as (c & t & E & W & _).
    remember (join item_separator (map dumps (y :: ys)) ++ "]" ++ rest) as X eqn:HX.
    simpl. rewrite E, skip_ws_head by exact W. rewrite <- E, HX.
    rewrite IH by (congruence || (simpl in Hg |- *; lia)). reflexivity.
Qed.

Lemma parse_members_join (kvs : list (string * value)) :
  Forall (fun kv => parses_back (snd kv)) kvs -> kvs <> [] ->
  forall g rest, list_sum (map (fun kv => S (size (snd kv))) kvs) < g ->
  parse_members g (join item_separator (map item kvs) ++ "}" ++ rest) = Some (kvs, rest).
Proof.
  induction 1 as [|[k v] kvs Pv Hkvs IH]; intros Hne g rest Hg; [congruence|].
  destruct g as [|g]; [lia|]. simpl in Hg, Pv.
  set (T := match kvs with
            | [] => "}" ++ rest
            | _ => item_separator ++ join item_separator (map item kvs) ++ "}" ++ rest
            end).
  assert (HT : join item_separator (map item ((k, v) :: kvs)) ++ "}" ++ rest
               = quote ++ escape_body k ++ quote ++ key_separator ++ dumps v ++ T).
  { unfold T. destruct kvs as [|kv' kvs].
    - simpl. unfold item, encode_string. simpl. rewrite !append_assoc. reflexivity.
    - rewrite join_cons2. unfold item at 1, encode_string. simpl. rewrite !append_assoc.
      reflexivity. }
  rewrite HT, parse_members_quote, parse_string_escaped
    by (rewrite !length_append; pose proof (escape_body_length k); simpl; lia).
  destruct (dumps_head v T) as (c & t & E & W & _).
  remember (dumps v ++ T) as D eqn:HD.
  simpl. rewrite E, skip_ws_head by exact W. rewrite <- E, HD.
  rewrite Pv by lia. unfold T. destruct kvs as [|kv' kvs'].
  - reflexivity.
  - destruct (join_items_head kv' kvs' ("}" ++ rest)) as (t' & E').
    remember (join item_separator (map item (kv' :: kvs')) ++ "}" ++ rest) as X eqn:HX.
    simpl. rewrite E', skip_ws_quote, <- E', HX.
    rewrite IH by (congruence || (simpl in Hg |- *; lia)). reflexivity.
Qed.

(** The decoder reads back every serialised value, whatever text follows. *)
Lemma parse_dumps (v : value) : parses_back v.
Proof.
  induction v as [| b | s | xs IH | kvs IH] using value_ind'; intros g rest Hg;
    (destruct g as [|g]; [simpl in Hg; lia|]).
  - unfold dumps. unfold parse_value. simpl. unfold starts_with. simpl.
    rewrite substring_all, prefix_empty by lia. reflexivity.
  - destruct b; unfold dumps; unfold parse_value; simpl; unfold starts_with; simpl;
      rewrite substring_all, prefix_empty by lia; reflexivity.
  - change (dumps (JStr s)) with (quote ++ escape_body s ++ quote).
    rewrite !append_assoc, parse_value_quote, parse_string_escaped
      by (rewrite !length_append; pose proof (escape_body_length s); simpl; lia).
    reflexivity.
  - rewrite dumps_arr, !append_assoc, parse_value_arr. destruct xs as [|x xs'].
    + reflexivity.
    + destruct (join_dumps_head x xs' ("]" ++ rest)) as (c & t & E & W & B).
      rewrite E, skip_ws_head, B by exact W.
      rewrite <- E, parse_elements_join by first [exact IH | congruence | simpl in Hg |- *; lia].
      reflexivity.
  - rewrite dumps_obj, !append_assoc, parse_value_obj. destruct kvs as [|kv kvs'].
    + reflexivity.
    + destruct (join_items_head kv kvs' ("}" ++ rest)) as (t & E).
      rewrite E, skip_ws_quote.
      change (quote ++ t) with (String "034" t) in E |- *. simpl. rewrite <- E.
      rewrite parse_members_join by first [exact IH | congruence | simpl in Hg |- *; lia].
      reflexivity.
Qed.

Lemma list_sum_map_le {A} (f h : A -> nat) (l : list A) :
  Forall (fun x => f x <= h x) l -> list_sum (map f l) <= list_sum (map h l).
Proof. induction 1; simpl; lia. Qed.

Lemma join_length (sep : string) (xs : list string) :
  1 <= String.length sep ->
  list_sum (map (fun x => S (String.length x)) xs) <= S (String.length (join sep xs)).
Proof.
  intros Hsep. induction xs as [|x [|y ys] IH]; simpl in *; [lia|lia|].
  rewrite !length_append. simpl in IH. lia.
Qed.

(** The serialised text is at least as long as the value is large. *)
Lemma size_le_length (v : value) : size v <= String.length (dumps v).
Proof.
  induction v as [| b | s | xs IH | kvs IH] using value_ind'.
  - simpl. lia.
  - destruct b; simpl; lia.
  - simpl. lia.
  - rewrite dumps_arr, !length_append. simpl.
    pose proof (join_length item_separator (map dumps xs) ltac:(simpl; lia)) as J.
    rewrite map_map in J.
    assert (L : list_sum (map (fun x => S (size x)) xs)
                <= list_sum (map (fun x => S (String.length (dumps x))) xs)).
    { apply list_sum_map_le. eapply Forall_impl; [|exact IH]. simpl. lia. }
    lia.
  - rewrite dumps_obj, !length_append. simpl.
    pose proof (join_length item_separator (map item kvs) ltac:(simpl; lia)) as J.
    rewrite map_map in J.
    assert (L : list_sum (map (fun kv => S (size (snd kv))) kvs)
                <= list_sum (map (fun kv => S (String.length (item kv))) kvs)).
    { apply list_sum_map_le. eapply Forall_impl; [|exact IH]. intros [k v] H.
      unfold item, encode_string. simpl fst in *. simpl snd in *.
      rewrite !length_append. simpl. lia. }
    lia.
Qed.

Lemma escape_body_printable (s : string) : printable (escape_body s) = true.
Proof.
  induction s as [|c s IH]; simpl; [reflexivity|].
  rewrite printable_append, escape_char_printable, IH. reflexivity.
Qed.

Lemma join_printable (sep : string) (xs : list string) :
  printable sep = true -> Forall (fun x => printable x = true) xs ->
  printable (join sep xs) = true.
Proof.
  intros Hsep. induction 1 as [|x xs Hx Hxs IH]; [reflexivity|].
  destruct xs as [|y ys]; [exact Hx|].
  change (join sep (x :: y :: ys)) with (x ++ sep ++ join sep (y :: ys)).
  rewrite !printable_append, Hx, Hsep, IH. reflexivity.
Qed.

(** [json.dumps] with [ensure_ascii=True]: for every value whose strings
    have code points below 256, the text it produces consists of printable
    ASCII characters only ([' '..'~']); quotes, backslashes, control
    characters and the code points 127 to 255 are written as escapes. *)
Theorem dumps_printable_ascii (v : value) : printable (dumps v) = true.
Proof.
  induction v as [| b | s | xs IH | kvs IH] using value_ind'.
  - reflexivity.
  - destruct b; reflexivity.
  - unfold dumps, encode_string. rewrite !printable_append, escape_body_printable.
    reflexivity.
  - rewrite dumps_arr, !printable_append, join_printable; [reflexivity|reflexivity|].
    apply Forall_map. exact IH.
  - rewrite dumps_obj, !printable_append, join_printable; [reflexivity|reflexivity|].
    apply Forall_map. eapply Forall_impl; [|exact IH]. intros [k v] H. simpl in H.
    unfold item, encode_string. cbn [fst snd].
    rewrite !printable_append, escape_body_printable, H. reflexivity.
Qed.

(** Round trip of [json.dumps] through a JSON decoder: every value the
    encoder accepts (nested arrays and objects, [null], booleans, strings of
    any code points below 256) decodes back to itself, keys and their order
    included. *)
Theorem loads_dumps (v : value) : loads (dumps v) = Some v.
Proof.
  unfold loads.
  pose proof (parse_dumps v (S (String.length (dumps v))) EmptyString) as P.
  rewrite append_nil_r in P.
  destruct (dumps_head v EmptyString) as (c & t & E & W & _).
  rewrite append_nil_r in E.
  rewrite E, skip_ws_head by exact W. rewrite <- E.
  rewrite P by (pose proof (size_le_length v); lia). reflexivity.
Qed.

End JsonFacts.
